(** * A shallow embedding of the to-do service (src/main.py)

    The service keeps one module-level list, [all_todos], and exposes five
    request handlers over it.  The list is modelled as a [list Todo.t] that
    is threaded through every handler; a handler is a function from the
    current list to the new list and either the raised exception or the
    returned value.

    Python integers are unbounded, so ids and query parameters are [Z].
    A Python [str] is a [string]; each element stands for one character,
    which is the unit that the [min_length]/[max_length] constraints count.

    The records held by [all_todos] are distinct objects (every slot is
    filled by its own constructor call), so mutating the object found by a
    loop is the same as replacing the list slot it sits in. *)

From Stdlib Require Import ZArith String DecimalString.
From stdpp Require Import base decidable option numbers list sorting.

Local Open Scope string_scope.
Local Open Scope list_scope.
Local Open Scope Z_scope.

(** ** Data model *)

(** [class Priority(IntEnum)] *)
Inductive Priority : Type := LOW | MEDIUM | HIGH.

Definition Priority_value (p : Priority) : Z :=
  match p with LOW => 1 | MEDIUM => 2 | HIGH => 3 end.

(** [Priority(v)]: the member whose value is [v], if any. *)
Definition Priority_of_value (v : Z) : option Priority :=
  if bool_decide (v = 1) then Some LOW
  else if bool_decide (v = 2) then Some MEDIUM
  else if bool_decide (v = 3) then Some HIGH
  else None.

(** What a handler or a model constructor can raise. *)
Inductive exn : Type :=
| HTTPException (status_code : Z) (detail : string)
| ValidationError
| IndexError.

(** [Field(..., min_length=lo, max_length=hi)] on a [str]. *)
Definition str_len (s : string) : Z := Z.of_nat (String.length s).

Definition length_between (lo hi : Z) (s : string) : bool :=
  bool_decide (lo ≤ str_len s) && bool_decide (str_len s ≤ hi).

(** The constraints that [TodoBase] declares for [name] and [description]. *)
Definition name_ok (s : string) : bool := length_between 3 100 s.
Definition description_ok (s : string) : bool := length_between 5 512 s.

(** [class TodoCreate(TodoBase)] *)
Module TodoCreate.
Record t : Type := mk { name : string; description : string; priority : Priority }.
End TodoCreate.

(** [class TodoUpdate(BaseModel)]: every field is [Optional], default [None]. *)
Module TodoUpdate.
Record t : Type :=
  mk { name : option string; description : option string; priority : option Priority }.
End TodoUpdate.

(** [class Todo(TodoBase)] *)
Module Todo.
Record t : Type :=
  mk { todo_id : Z; name : string; description : string; priority : Priority }.

(** Attribute assignment on an instance ([todo.name = ...] and so on);
    the model does not validate on assignment. *)
Definition set_name (v : string) (x : t) : t :=
  mk (todo_id x) v (description x) (priority x).
Definition set_description (v : string) (x : t) : t :=
  mk (todo_id x) (name x) v (priority x).
Definition set_priority (v : Priority) (x : t) : t :=
  mk (todo_id x) (name x) (description x) v.
End Todo.

(** *** Model constructors

    Building a pydantic model validates the declared field constraints and
    raises [ValidationError] when one fails.  The raw priority is the
    integer of the JSON body; an absent one takes the declared default. *)

Definition parse_priority (default : option Priority) (raw : option Z)
  : exn + option Priority :=
  match raw with
  | None => inr default
  | Some v => match Priority_of_value v with
              | Some p => inr (Some p)
              | None => inl ValidationError
              end
  end.

Definition TodoCreate_new (name description : string) (priority : option Z)
  : exn + TodoCreate.t :=
  if negb (name_ok name) then inl ValidationError
  else if negb (description_ok description) then inl ValidationError
  else match parse_priority (Some LOW) priority with
       | inl e => inl e
       | inr None => inl ValidationError
       | inr (Some p) => inr (TodoCreate.mk name description p)
       end.

Definition opt_ok (ok : string → bool) (o : option string) : bool :=
  match o with None => true | Some s => ok s end.

Definition TodoUpdate_new (name description : option string) (priority : option Z)
  : exn + TodoUpdate.t :=
  if negb (opt_ok name_ok name) then inl ValidationError
  else if negb (opt_ok description_ok description) then inl ValidationError
  else match parse_priority None priority with
       | inl e => inl e
       | inr p => inr (TodoUpdate.mk name description p)
       end.

(** [Todo(todo_id=..., name=..., description=..., priority=...)] with a
    priority that already is a member of [Priority]. *)
Definition Todo_new (todo_id : Z) (name description : string) (priority : Priority)
  : exn + Todo.t :=
  if negb (name_ok name) then inl ValidationError
  else if negb (description_ok description) then inl ValidationError
  else inr (Todo.mk todo_id name description priority).

(** Field constraints as predicates on the three record types. *)
Definition TodoCreate_ok (c : TodoCreate.t) : Prop :=
  name_ok (TodoCreate.name c) = true ∧ description_ok (TodoCreate.description c) = true.

Definition TodoUpdate_ok (u : TodoUpdate.t) : Prop :=
  opt_ok name_ok (TodoUpdate.name u) = true ∧
  opt_ok description_ok (TodoUpdate.description u) = true.

Definition Todo_ok (x : Todo.t) : Prop :=
  name_ok (Todo.name x) = true ∧ description_ok (Todo.description x) = true.

(** ** The handler monad: state passing over [all_todos], with exceptions *)

Definition handler (A : Type) : Type := list Todo.t → list Todo.t * (exn + A).

Definition ret {A} (a : A) : handler A := λ all_todos, (all_todos, inr a).
Definition raise {A} (e : exn) : handler A := λ all_todos, (all_todos, inl e).
Definition bind {A B} (m : handler A) (k : A → handler B) : handler B :=
  λ all_todos,
    match m all_todos with
    | (all_todos', inr a) => k a all_todos'
    | (all_todos', inl e) => (all_todos', inl e)
    end.
(** Reading and rebinding the contents of the global list. *)
Definition read : handler (list Todo.t) := λ all_todos, (all_todos, inr all_todos).
Definition write (l : list Todo.t) : handler unit := λ _, (l, inr tt).
(** A model constructor's outcome inside a handler. *)
Definition lift {A} (r : exn + A) : handler A := λ all_todos, (all_todos, r).


(** The handlers are written with the monad notation [x ← m; k] and
    [m;; k]. *)
#[export] Instance handler_ret : MRet handler := @ret.
#[export] Instance handler_bind : MBind handler := λ A B k m, bind m k.

(** ** Python list primitives used by the handlers *)

(** [l[:n]], for any integer [n] (a negative bound counts from the end). *)
Definition slice_to {A} (l : list A) (n : Z) : list A :=
  if bool_decide (n < 0)
  then take (Z.to_nat (Z.max 0 (Z.of_nat (length l) + n))) l
  else take (Z.to_nat n) l.

(** [max(xs, default=d)] *)
Definition max_default (xs : list Z) (d : Z) : Z :=
  match xs with
  | [] => d
  | x :: rest => foldl Z.max x rest
  end.

(** [l.pop(index)] for a non-negative index: the element and the list
    without it, or [IndexError] when the index is out of range. *)
Definition pop {A} (l : list A) (index : nat) : exn + (A * list A) :=
  match l !! index with
  | Some x => inr (x, delete index l)
  | None => inl IndexError
  end.

(** [for index, x in enumerate(l): if x.todo_id == todo_id: ...]: the first
    position whose record has the id, with that record. *)
Definition first_with_id (todo_id : Z) (l : list Todo.t) : option (nat * Todo.t) :=
  list_find (λ x, Todo.todo_id x = todo_id) l.

(** ** The module-level list *)

(** [f"{i}"] for a natural number. *)
Definition str (i : nat) : string := NilZero.string_of_uint (Nat.to_uint i).

(** [all_todos = [Todo(todo_id=i, name=f"todo{i}", description=f"description{i}",
    priority=random.choice(list(Priority))) for i in range(10)]].  The
    random choices are an arbitrary function of the position. *)
Definition all_todos_init (choice : nat → Priority) : list Todo.t :=
  (λ i, Todo.mk (Z.of_nat i) ("todo" ++ str i)%string
           ("description" ++ str i)%string (choice i))
    <$> seq 0 10.

(** ** Request handlers *)

(** [GET /todos] *)
Definition todos (first_n : option Z) : handler (list Todo.t) :=
  match first_n with
  | Some n =>
      if bool_decide (n < 0)
      then raise (HTTPException 400 "Index must be a positive number.")
      else all_todos ← read; ret (slice_to all_todos n)
  | None => all_todos ← read; ret all_todos
  end.

(** [GET /todo/{todo_id}] *)
Definition get_todo (todo_id : Z) : handler Todo.t :=
  all_todos ← read;
  match first_with_id todo_id all_todos with
  | Some (_, todo) => ret todo
  | None => raise (HTTPException 404 "Todo not found.")
  end.

(** [POST /todos/] *)
Definition create_todo (todo : TodoCreate.t) : handler Todo.t :=
  all_todos ← read;
  let new_id := max_default (Todo.todo_id <$> all_todos) (-1) + 1 in
  new_todo ← lift (Todo_new new_id (TodoCreate.name todo)
                     (TodoCreate.description todo) (TodoCreate.priority todo));
  write (all_todos ++ [new_todo]);;
  ret new_todo.

(** The three guarded assignments of [update_todo], applied to the record
    that the loop found. *)
Definition apply_update (updated_todo : TodoUpdate.t) (todo : Todo.t) : Todo.t :=
  let todo := match TodoUpdate.name updated_todo with
              | Some v => Todo.set_name v todo
              | None => todo
              end in
  let todo := match TodoUpdate.description updated_todo with
              | Some v => Todo.set_description v todo
              | None => todo
              end in
  let todo := match TodoUpdate.priority updated_todo with
              | Some v => Todo.set_priority v todo
              | None => todo
              end in
  todo.

(** [PATCH /todo/{todo_id}/] *)
Definition update_todo (todo_id : Z) (updated_todo : TodoUpdate.t) : handler Todo.t :=
  all_todos ← read;
  match first_with_id todo_id all_todos with
  | Some (index, todo) =>
      let todo := apply_update updated_todo todo in
      write (<[index := todo]> all_todos);;
      ret todo
  | None => raise (HTTPException 404 "Todo not found")
  end.

(** [DELETE /todo/{todo_id}/] *)
Definition delete_todo (todo_id : Z) : handler Todo.t :=
  all_todos ← read;
  match first_with_id todo_id all_todos with
  | Some (index, _) =>
      popped ← lift (pop all_todos index);
      write (snd popped);;
      ret (fst popped)
  | None => raise (HTTPException 404 "Todo not found.")
  end.

(** ** The HTTP boundary

    A request carries the raw path, query and body values.  The framework
    builds the body model before the handler runs; a [ValidationError]
    there is answered without calling the handler. *)

Inductive Request : Type :=
| GET_todos (first_n : option Z)
| GET_todo (todo_id : Z)
| POST_todos (name description : string) (priority : option Z)
| PATCH_todo (todo_id : Z) (name description : option string) (priority : option Z)
| DELETE_todo (todo_id : Z).

Inductive Reply : Type :=
| OneTodo (x : Todo.t)
| ManyTodos (l : list Todo.t).

Definition api (r : Request) : handler Reply :=
  match r with
  | GET_todos first_n => l ← todos first_n; ret (ManyTodos l)
  | GET_todo todo_id => x ← get_todo todo_id; ret (OneTodo x)
  | POST_todos name description priority =>
      todo ← lift (TodoCreate_new name description priority);
      x ← create_todo todo; ret (OneTodo x)
  | PATCH_todo todo_id name description priority =>
      updated_todo ← lift (TodoUpdate_new name description priority);
      x ← update_todo todo_id updated_todo; ret (OneTodo x)
  | DELETE_todo todo_id => x ← delete_todo todo_id; ret (OneTodo x)
  end.

(** The list after serving a sequence of requests, oldest first. *)
Definition serve (reqs : list Request) (all_todos : list Todo.t) : list Todo.t :=
  foldl (λ s r, fst (api r s)) all_todos reqs.

(** The list of a process that has served [reqs] since start-up. *)
Definition run (choice : nat → Priority) (reqs : list Request) : list Todo.t :=
  serve reqs (all_todos_init choice).

(** The status code with which an exception reaches the client. *)
Definition status_of (e : exn) : Z :=
  match e with
  | HTTPException status_code _ => status_code
  | ValidationError => 422
  | IndexError => 500
  end.

Definition NotFound (e : exn) : Prop := status_of e = 404.
Definition InvalidArgument (e : exn) : Prop := status_of e = 400.

(** ** Predicates used in the statements *)

(** Ids of the records of a list, in list order. *)
Definition ids (l : list Todo.t) : list Z := Todo.todo_id <$> l.


(** [m] is the maximum of [xs]: a member that bounds every member. *)
Definition is_max (m : Z) (xs : list Z) : Prop := m ∈ xs ∧ Forall (λ x, x ≤ m) xs.

(** The data-model invariant on ids: no two records of the collection
    carry the same id. *)
Definition unique_ids (s : list Todo.t) : Prop := NoDup (ids s).

(** The field-length constraints, spelled out. *)
Definition lengths_ok (x : Todo.t) : Prop :=
  3 ≤ str_len (Todo.name x) ≤ 100 ∧ 5 ≤ str_len (Todo.description x) ≤ 512.

(** The invariant of the collection. *)
Definition store_ok (s : list Todo.t) : Prop := unique_ids s ∧ Forall Todo_ok s.

(** The ways in which one request can change the collection. *)
Inductive effect (s : list Todo.t) : Request → list Todo.t → Prop :=
| effect_none r :
    effect s r s
| effect_create n d p x :
    Todo.todo_id x = max_default (ids s) (-1) + 1 → Todo_ok x →
    effect s (POST_todos n d p) (s ++ [x])
| effect_update todo_id n d p i x u :
    first_with_id todo_id s = Some (i, x) → TodoUpdate_ok u →
    effect s (PATCH_todo todo_id n d p) (<[i := apply_update u x]> s)
| effect_delete todo_id i x :
    first_with_id todo_id s = Some (i, x) →
    effect s (DELETE_todo todo_id) (delete i s).

(** The id that a request assigns to a new record, if it creates one. *)
Definition assigned (r : Request) (s : list Todo.t) : list Z :=
  match r, snd (api r s) with
  | POST_todos _ _ _, inr (OneTodo x) => [Todo.todo_id x]
  | _, _ => []
  end.

(** Ids assigned while serving [reqs] from [s], oldest first. *)
Fixpoint assigned_by (reqs : list Request) (s : list Todo.t) : list Z :=
  match reqs with
  | [] => []
  | r :: rest => assigned r s ++ assigned_by rest (fst (api r s))
  end.

(** Every id assigned since start-up: the ten initial ones, then those of
    the requests. *)
Definition id_log (choice : nat → Priority) (reqs : list Request) : list Z :=
  ids (all_todos_init choice) ++ assigned_by reqs (all_todos_init choice).

(** No id is assigned twice in the history of [reqs]. *)
Definition never_reassigned (choice : nat → Priority) (reqs : list Request) : Prop :=
  NoDup (id_log choice reqs).

(** ** Sample data for the closed instances *)

Definition sample_todos : list Todo.t := all_todos_init (λ _, LOW).
Definition buy_milk : TodoCreate.t := TodoCreate.mk "Buy milk" "2% milk, 1 gal" MEDIUM.
Definition raise_priority : TodoUpdate.t := TodoUpdate.mk None None (Some HIGH).
Definition post_buy_milk : Request := POST_todos "Buy milk" "2% milk, 1 gal" (Some 2).
Definition create_delete : list Request := [post_buy_milk; DELETE_todo 10].
Definition milk_again : Todo.t := Todo.mk 10 "Buy milk" "2% milk, 1 gal" MEDIUM.
Definition empty_patch : TodoUpdate.t := TodoUpdate.mk None None None.
Definition walk_dog : TodoCreate.t := TodoCreate.mk "Walk dog" "around the block" LOW.

(** * Properties *)

(** ** List primitives *)

Lemma foldl_max_ge (rest : list Z) (x : Z) : x ≤ foldl Z.max x rest.
Proof.
  revert x. induction rest as [|y rest IH]; intros x; simpl; [lia|].
  etrans; [|apply IH]. lia.
Qed.

Lemma foldl_max_bound (rest : list Z) (x : Z) :
  Forall (λ y, y ≤ foldl Z.max x rest) rest.
Proof.
  revert x. induction rest as [|y rest IH]; intros x; simpl; constructor.
  - etrans; [|apply foldl_max_ge]. lia.
  - apply IH.
Qed.

Lemma foldl_max_elem (rest : list Z) (x : Z) : foldl Z.max x rest ∈ x :: rest.
Proof.
  revert x. induction rest as [|y rest IH]; intros x; simpl; [by left|].
  specialize (IH (Z.max x y)). apply elem_of_cons in IH as [IH|IH].
  - rewrite IH. destruct (Z.max_spec x y) as [[_ ->]|[_ ->]].
    + right. by left.
    + by left.
  - by do 2 right.
Qed.

Lemma max_default_is_max (xs : list Z) (d : Z) :
  xs ≠ [] → is_max (max_default xs d) xs.
Proof.
  destruct xs as [|x rest]; [done|]. intros _. split; simpl.
  - apply foldl_max_elem.
  - constructor; [apply foldl_max_ge | apply foldl_max_bound].
Qed.

Lemma is_max_unique (m m' : Z) (xs : list Z) : is_max m xs → is_max m' xs → m = m'.
Proof.
  intros [Hin Hle] [Hin' Hle']. rewrite Forall_forall in Hle, Hle'.
  specialize (Hle _ Hin'). specialize (Hle' _ Hin). lia.
Qed.

Lemma max_default_bound (xs : list Z) (d : Z) : Forall (λ x, x ≤ max_default xs d) xs.
Proof.
  destruct xs as [|x rest]; [constructor|].
  by apply (max_default_is_max (x :: rest) d).
Qed.

Lemma slice_to_nonneg {A} (l : list A) (n : Z) :
  0 ≤ n → slice_to l n = take (Z.to_nat n `min` length l) l.
Proof.
  intros Hn. unfold slice_to. rewrite bool_decide_eq_false_2 by lia.
  destruct (Nat.le_ge_cases (Z.to_nat n) (length l)) as [H|H].
  - by rewrite Nat.min_l.
  - rewrite Nat.min_r by done. by rewrite !take_ge.
Qed.

(** ** Locating a record by id *)

Lemma first_with_id_Some (todo_id : Z) (l : list Todo.t) (i : nat) (x : Todo.t) :
  first_with_id todo_id l = Some (i, x) ↔
  l !! i = Some x ∧ Todo.todo_id x = todo_id ∧
  ∀ j y, l !! j = Some y → (j < i)%nat → Todo.todo_id y ≠ todo_id.
Proof. unfold first_with_id. by rewrite list_find_Some. Qed.

Lemma first_with_id_None (todo_id : Z) (l : list Todo.t) :
  first_with_id todo_id l = None ↔ todo_id ∉ ids l.
Proof.
  unfold first_with_id, ids. rewrite list_find_None, Forall_forall, list_elem_of_fmap.
  split.
  - intros H (x & -> & Hx). by apply (H x).
  - intros H x Hx E. apply H. by exists x.
Qed.

Lemma first_with_id_present (todo_id : Z) (l : list Todo.t) :
  todo_id ∈ ids l → ∃ i x, first_with_id todo_id l = Some (i, x).
Proof.
  intros Hin. destruct (first_with_id todo_id l) as [[i x]|] eqn:E; [by eauto|].
  by apply first_with_id_None in E.
Qed.

(** The part of the list before the first match holds no record with the id. *)
Lemma first_with_id_split (todo_id : Z) (l : list Todo.t) (i : nat) (x : Todo.t) :
  first_with_id todo_id l = Some (i, x) →
  l = take i l ++ x :: drop (S i) l ∧ (todo_id ∉ ids (take i l)) ∧ length (take i l) = i.
Proof.
  intros (Hi & Hx & Hmin)%first_with_id_Some. split_and!.
  - by rewrite take_drop_middle.
  - unfold ids. rewrite list_elem_of_fmap. intros (y & Hy & Hin).
    apply list_elem_of_lookup in Hin as [j Hj].
    apply lookup_take_Some in Hj as [Hj Hlt]. by apply (Hmin j y).
  - apply length_take_le. apply lookup_lt_Some in Hi. lia.
Qed.

(** ** The handlers, one equation each *)

Lemma Todo_new_ok (new_id : Z) (c : TodoCreate.t) :
  TodoCreate_ok c →
  Todo_new new_id (TodoCreate.name c) (TodoCreate.description c) (TodoCreate.priority c)
  = inr (Todo.mk new_id (TodoCreate.name c) (TodoCreate.description c)
           (TodoCreate.priority c)).
Proof. intros [Hn Hd]. unfold Todo_new. by rewrite Hn, Hd. Qed.

Lemma Todo_new_inv (new_id : Z) (n d : string) (p : Priority) (x : Todo.t) :
  Todo_new new_id n d p = inr x → x = Todo.mk new_id n d p ∧ Todo_ok x.
Proof.
  unfold Todo_new, Todo_ok.
  destruct (name_ok n) eqn:Hn; simpl; [|done].
  destruct (description_ok d) eqn:Hd; simpl; [|done].
  by intros [= <-].
Qed.

Lemma create_todo_eq (c : TodoCreate.t) (s : list Todo.t) :
  TodoCreate_ok c →
  let x := Todo.mk (max_default (ids s) (-1) + 1) (TodoCreate.name c)
             (TodoCreate.description c) (TodoCreate.priority c) in
  create_todo c s = (s ++ [x], inr x).
Proof.
  intros Hc. unfold create_todo, mbind, handler_bind, bind, read, lift; simpl.
  fold (ids s). by rewrite Todo_new_ok.
Qed.

Lemma get_todo_eq (todo_id : Z) (s : list Todo.t) :
  get_todo todo_id s =
  (s, match first_with_id todo_id s with
      | Some (_, todo) => inr todo
      | None => inl (HTTPException 404 "Todo not found.")
      end).
Proof.
  unfold get_todo, mbind, handler_bind, bind, read; simpl.
  by destruct (first_with_id todo_id s) as [[i x]|].
Qed.

Lemma update_todo_eq (todo_id : Z) (u : TodoUpdate.t) (s : list Todo.t) :
  update_todo todo_id u s =
  match first_with_id todo_id s with
  | Some (index, todo) => (<[index := apply_update u todo]> s, inr (apply_update u todo))
  | None => (s, inl (HTTPException 404 "Todo not found"))
  end.
Proof.
  unfold update_todo, mbind, handler_bind, bind, read; simpl.
  by destruct (first_with_id todo_id s) as [[i x]|].
Qed.

Lemma delete_todo_eq (todo_id : Z) (s : list Todo.t) :
  delete_todo todo_id s =
  match first_with_id todo_id s with
  | Some (index, todo) => (delete index s, inr todo)
  | None => (s, inl (HTTPException 404 "Todo not found."))
  end.
Proof.
  unfold delete_todo, mbind, handler_bind, bind, read; simpl.
  destruct (first_with_id todo_id s) as [[i x]|] eqn:E; [|done].
  apply first_with_id_Some in E as (Hi & _). unfold lift, pop. by rewrite Hi.
Qed.

Lemma todos_eq (first_n : option Z) (s : list Todo.t) :
  todos first_n s =
  (s, match first_n with
      | Some n => if bool_decide (n < 0)
                  then inl (HTTPException 400 "Index must be a positive number.")
                  else inr (slice_to s n)
      | None => inr s
      end).
Proof.
  destruct first_n as [n|]; simpl; [|done]. by destruct (bool_decide (n < 0)).
Qed.

(** The id chosen by [create_todo] lies above every id of the list. *)
Lemma next_id_above (s : list Todo.t) :
  Forall (λ y, Todo.todo_id y < max_default (ids s) (-1) + 1) s.
Proof.
  pose proof (max_default_bound (ids s) (-1)) as H. unfold ids in H.
  rewrite Forall_fmap in H. eapply Forall_impl; [exact H|].
  intros y Hy. unfold compose in Hy. fold (ids s) in Hy. lia.
Qed.

Lemma next_id_fresh (s : list Todo.t) : max_default (ids s) (-1) + 1 ∉ ids s.
Proof.
  unfold ids. rewrite list_elem_of_fmap. intros (y & Hy & Hin).
  pose proof (next_id_above s) as H. rewrite Forall_forall in H.
  specialize (H y Hin). simpl in H. unfold ids in H. lia.
Qed.

Lemma first_with_id_app_new (s : list Todo.t) (x : Todo.t) :
  Todo.todo_id x ∉ ids s →
  first_with_id (Todo.todo_id x) (s ++ [x]) = Some (length s, x).
Proof.
  intros Hfresh. apply first_with_id_Some. split_and!.
  - by rewrite lookup_app_r, Nat.sub_diag.
  - done.
  - intros j y Hj Hlt E. apply Hfresh. unfold ids. rewrite list_elem_of_fmap.
    exists y. split; [done|]. apply list_elem_of_lookup. exists j.
    by rewrite lookup_app_l in Hj.
Qed.

Lemma buy_milk_ok : TodoCreate_ok buy_milk.
Proof. split; reflexivity. Defined.

(** ** The handlers on the start-up list *)

Example list_first_three :
  todos (Some 3) sample_todos = (sample_todos, inr (take 3 sample_todos)) ∧
  ids (take 3 sample_todos) = [0; 1; 2].
Proof. split; reflexivity. Qed.

Example create_on_start_up :
  snd (create_todo buy_milk sample_todos)
  = inr (Todo.mk 10 "Buy milk" "2% milk, 1 gal" MEDIUM).
Proof. reflexivity. Qed.

Example get_absent :
  get_todo 99 sample_todos = (sample_todos, inl (HTTPException 404 "Todo not found.")).
Proof. reflexivity. Qed.

Example update_priority_only :
  snd (update_todo 5 raise_priority sample_todos)
  = inr (Todo.mk 5 "todo5" "description5" HIGH).
Proof. reflexivity. Qed.

Example delete_then_get_absent :
  snd (delete_todo 3 sample_todos) = inr (Todo.mk 3 "todo3" "description3" LOW) ∧
  snd (get_todo 3 (fst (delete_todo 3 sample_todos)))
  = inl (HTTPException 404 "Todo not found.").
Proof. split; reflexivity. Qed.

Example post_too_short_name :
  api (POST_todos "ab" "2% milk, 1 gal" None) sample_todos
  = (sample_todos, inl ValidationError).
Proof. reflexivity. Qed.

Example post_default_priority :
  snd (api (POST_todos "Buy milk" "2% milk, 1 gal" None) sample_todos)
  = inr (OneTodo (Todo.mk 10 "Buy milk" "2% milk, 1 gal" LOW)).
Proof. reflexivity. Qed.

(** ** Claims *)

(** C1. For every collection state, [create_todo] gives the new record the
    id one above the maximum id present (0 when the collection is empty),
    appends the record at the end of the collection and returns it, id
    included. *)
Theorem create_todo_assigns_next_id (s : list Todo.t) (c : TodoCreate.t) :
  TodoCreate_ok c →
  ∃ x, create_todo c s = (s ++ [x], inr x) ∧
       Todo.name x = TodoCreate.name c ∧
       Todo.description x = TodoCreate.description c ∧
       Todo.priority x = TodoCreate.priority c ∧
       ((s = [] ∧ Todo.todo_id x = 0) ∨
        (∃ m, is_max m (ids s) ∧ Todo.todo_id x = m + 1)).
Proof.
  intros Hc. eexists. split; [by apply create_todo_eq|]. simpl. split_and!; try done.
  destruct s as [|y s]; [by left|right].
  exists (max_default (ids (y :: s)) (-1)). split; [|done].
  by apply max_default_is_max.
Qed.

Lemma create_todo_assigns_next_id_witness :
  ∃ x, create_todo buy_milk sample_todos = (sample_todos ++ [x], inr x) ∧
       Todo.name x = TodoCreate.name buy_milk ∧
       Todo.description x = TodoCreate.description buy_milk ∧
       Todo.priority x = TodoCreate.priority buy_milk ∧
       ((sample_todos = [] ∧ Todo.todo_id x = 0) ∨
        (∃ m, is_max m (ids sample_todos) ∧ Todo.todo_id x = m + 1)).
Proof. apply (create_todo_assigns_next_id sample_todos buy_milk). exact buy_milk_ok. Defined.

(** C3. For every collection state: [todos] without a limit returns the
    whole collection in its order; with a limit [k >= 0] it returns the
    first [min k size] records, in order; with a limit [k < 0] it fails
    with the 400 client error. *)
Theorem todos_limit (s : list Todo.t) :
  todos None s = (s, inr s) ∧
  (∀ k, 0 ≤ k →
     todos (Some k) s = (s, inr (take (Z.to_nat k `min` length s) s)) ∧
     length (take (Z.to_nat k `min` length s) s) = (Z.to_nat k `min` length s)%nat) ∧
  (∀ k, k < 0 → ∃ e, todos (Some k) s = (s, inl e) ∧ InvalidArgument e).
Proof.
  split_and!.
  - by rewrite todos_eq.
  - intros k Hk. split.
    + rewrite todos_eq, bool_decide_eq_false_2 by lia. by rewrite slice_to_nonneg.
    + rewrite length_take. lia.
  - intros k Hk. eexists. rewrite todos_eq, bool_decide_eq_true_2 by lia. done.
Qed.

Lemma todos_limit_witness :
  todos (Some 3) sample_todos = (sample_todos, inr (take 3 sample_todos)) ∧
  ∃ e, todos (Some (-1)) sample_todos = (sample_todos, inl e) ∧ InvalidArgument e.
Proof.
  destruct (todos_limit sample_todos) as (_ & Hk & Hneg). split.
  - destruct (Hk 3) as [-> _]; [lia|]. reflexivity.
  - apply Hneg. lia.
Defined.

(** C10. [get_todo] and [todos] only read: whatever the input, and whether
    they return or raise, the collection afterwards is the collection
    before. *)
Theorem get_and_list_read_only (s : list Todo.t) :
  (∀ todo_id, fst (get_todo todo_id s) = s) ∧
  (∀ first_n, fst (todos first_n s) = s).
Proof.
  split.
  - intros todo_id. by rewrite get_todo_eq.
  - intros first_n. by rewrite todos_eq.
Qed.

(** C7. For every state and every valid create input, [create_todo]
    followed by [get_todo] on the returned record's id succeeds and yields
    the record that [create_todo] returned. *)
Theorem create_then_get (s : list Todo.t) (c : TodoCreate.t) :
  TodoCreate_ok c →
  ∃ s' x, create_todo c s = (s', inr x) ∧
          get_todo (Todo.todo_id x) s' = (s', inr x).
Proof.
  intros Hc. eexists _, _. split; [by apply create_todo_eq|].
  rewrite get_todo_eq, first_with_id_app_new; [done|]. apply next_id_fresh.
Qed.

Lemma create_then_get_witness :
  ∃ s' x, create_todo buy_milk sample_todos = (s', inr x) ∧
          get_todo (Todo.todo_id x) s' = (s', inr x).
Proof. apply (create_then_get sample_todos buy_milk). exact buy_milk_ok. Defined.

(** What [apply_update] does to each attribute. *)
Lemma apply_update_fields (u : TodoUpdate.t) (x : Todo.t) :
  Todo.todo_id (apply_update u x) = Todo.todo_id x ∧
  Todo.name (apply_update u x) = default (Todo.name x) (TodoUpdate.name u) ∧
  Todo.description (apply_update u x)
    = default (Todo.description x) (TodoUpdate.description u) ∧
  Todo.priority (apply_update u x) = default (Todo.priority x) (TodoUpdate.priority u).
Proof.
  destruct u as [[n|] [d|] [p|]], x as [i xn xd xp]; by cbv.
Qed.

(** C4. For every state holding a record with the given id and every
    patch, [update_todo] overwrites on that record (the first with the id)
    exactly the attributes that the patch supplies, keeps the others and
    the id, leaves every other slot of the collection as it was, and
    returns the updated record. *)
Theorem update_todo_partial (s : list Todo.t) (todo_id : Z) (u : TodoUpdate.t) :
  todo_id ∈ ids s →
  ∃ i x x',
    s !! i = Some x ∧ Todo.todo_id x = todo_id ∧
    (∀ j y, s !! j = Some y → (j < i)%nat → Todo.todo_id y ≠ todo_id) ∧
    update_todo todo_id u s = (<[i := x']> s, inr x') ∧
    <[i := x']> s !! i = Some x' ∧
    (∀ j, j ≠ i → <[i := x']> s !! j = s !! j) ∧
    Todo.todo_id x' = Todo.todo_id x ∧
    Todo.name x' = default (Todo.name x) (TodoUpdate.name u) ∧
    Todo.description x' = default (Todo.description x) (TodoUpdate.description u) ∧
    Todo.priority x' = default (Todo.priority x) (TodoUpdate.priority u).
Proof.
  intros Hin. destruct (first_with_id_present _ _ Hin) as (i & x & Hfind).
  exists i, x, (apply_update u x).
  pose proof Hfind as (Hi & Hx & Hmin)%first_with_id_Some.
  destruct (apply_update_fields u x) as (? & ? & ? & ?).
  split_and!; try done.
  - by rewrite update_todo_eq, Hfind.
  - apply list_lookup_insert_eq. by eapply lookup_lt_Some.
  - intros j Hj. by apply list_lookup_insert_ne.
Qed.

Lemma update_todo_partial_witness :
  ∃ i x x',
    sample_todos !! i = Some x ∧ Todo.todo_id x = 5 ∧
    (∀ j y, sample_todos !! j = Some y → (j < i)%nat → Todo.todo_id y ≠ 5) ∧
    update_todo 5 raise_priority sample_todos = (<[i := x']> sample_todos, inr x') ∧
    <[i := x']> sample_todos !! i = Some x' ∧
    (∀ j, j ≠ i → <[i := x']> sample_todos !! j = sample_todos !! j) ∧
    Todo.todo_id x' = Todo.todo_id x ∧
    Todo.name x' = default (Todo.name x) (TodoUpdate.name raise_priority) ∧
    Todo.description x'
      = default (Todo.description x) (TodoUpdate.description raise_priority) ∧
    Todo.priority x' = default (Todo.priority x) (TodoUpdate.priority raise_priority).
Proof.
  apply (update_todo_partial sample_todos 5 raise_priority).
  apply (list_elem_of_lookup_2 _ 5%nat). reflexivity.
Defined.

(** C5. For every state holding a record with the given id, [delete_todo]
    removes that record (the first with the id) and nothing else, returns
    it, and keeps the remaining records in their order; when no record has
    the id it fails with the 404 error. *)
Theorem delete_todo_removes (s : list Todo.t) (todo_id : Z) :
  (todo_id ∈ ids s →
   ∃ before x after,
     s = before ++ x :: after ∧ Todo.todo_id x = todo_id ∧ (todo_id ∉ ids before) ∧
     delete_todo todo_id s = (before ++ after, inr x)) ∧
  (todo_id ∉ ids s → ∃ e, delete_todo todo_id s = (s, inl e) ∧ NotFound e).
Proof.
  split.
  - intros Hin. destruct (first_with_id_present _ _ Hin) as (i & x & Hfind).
    exists (take i s), x, (drop (S i) s).
    pose proof Hfind as (Hsplit & Hbefore & _)%first_with_id_split.
    pose proof Hfind as (_ & Hx & _)%first_with_id_Some.
    split_and!; try done.
    by rewrite delete_todo_eq, Hfind, delete_take_drop.
  - intros Hout%first_with_id_None. eexists. by rewrite delete_todo_eq, Hout.
Qed.

Lemma delete_todo_removes_witness :
  (∃ before x after,
     sample_todos = before ++ x :: after ∧ Todo.todo_id x = 3 ∧ (3 ∉ ids before) ∧
     delete_todo 3 sample_todos = (before ++ after, inr x)) ∧
  (∃ e, delete_todo 99 sample_todos = (sample_todos, inl e) ∧ NotFound e).
Proof.
  destruct (delete_todo_removes sample_todos 3) as [Hin _].
  destruct (delete_todo_removes sample_todos 99) as [_ Hout].
  split.
  - apply Hin. apply (list_elem_of_lookup_2 _ 3%nat). reflexivity.
  - apply Hout. apply first_with_id_None. reflexivity.
Defined.

Lemma ids_app (l1 l2 : list Todo.t) : ids (l1 ++ l2) = ids l1 ++ ids l2.
Proof. apply fmap_app. Qed.

Lemma unique_ids_delete_first (s : list Todo.t) (X : Z) (i : nat) (x : Todo.t) :
  unique_ids s → first_with_id X s = Some (i, x) →
  unique_ids (delete i s) ∧ (X ∉ ids (delete i s)) ∧
  ids (delete i s) ⊆ ids s.
Proof.
  intros Hnd Hfind.
  pose proof Hfind as (Hsplit & Hbefore & _)%first_with_id_split.
  pose proof Hfind as (_ & Hx & _)%first_with_id_Some.
  rewrite delete_take_drop. unfold unique_ids in *.
  rewrite Hsplit, ids_app in Hnd. simpl in Hnd. rewrite Hx in Hnd.
  apply NoDup_app in Hnd as (Hnd1 & Hdisj & Hnd2).
  apply NoDup_cons in Hnd2 as [Hafter Hnd2].
  rewrite !ids_app. split_and!.
  - apply NoDup_app. split_and!; [done| |done].
    intros z Hz Hz'. apply (Hdisj z Hz). by right.
  - rewrite elem_of_app. by intros [?|?].
  - intros z. rewrite elem_of_app. intros [Hz|Hz].
    + rewrite Hsplit, ids_app. apply elem_of_app. by left.
    + rewrite Hsplit, ids_app. apply elem_of_app. right. simpl. by right.
Qed.

(** C6. For every state (a collection with distinct ids) holding a record
    with id [X], [delete_todo X] succeeds, the collection afterwards is
    exactly one record shorter, and [get_todo X] on it fails with the 404
    error. *)
Theorem delete_then_get (s : list Todo.t) (X : Z) :
  unique_ids s → X ∈ ids s →
  ∃ s' x, delete_todo X s = (s', inr x) ∧
          (length s' + 1 = length s)%nat ∧
          ∃ e, get_todo X s' = (s', inl e) ∧ NotFound e.
Proof.
  intros Hnd Hin. destruct (first_with_id_present _ _ Hin) as (i & x & Hfind).
  exists (delete i s), x.
  destruct (unique_ids_delete_first s X i x Hnd Hfind) as (_ & Hgone & _).
  pose proof Hfind as (Hi%lookup_lt_Some & _)%first_with_id_Some.
  split_and!.
  - by rewrite delete_todo_eq, Hfind.
  - rewrite length_delete by (by apply lookup_lt_is_Some_2). lia.
  - apply first_with_id_None in Hgone. eexists. by rewrite get_todo_eq, Hgone.
Qed.

Lemma sample_todos_unique : unique_ids sample_todos.
Proof. unfold unique_ids. apply (bool_decide_unpack _). vm_compute. exact I. Defined.

Lemma delete_then_get_witness :
  ∃ s' x, delete_todo 3 sample_todos = (s', inr x) ∧
          (length s' + 1 = length sample_todos)%nat ∧
          ∃ e, get_todo 3 s' = (s', inl e) ∧ NotFound e.
Proof.
  apply (delete_then_get sample_todos 3).
  - exact sample_todos_unique.
  - apply (list_elem_of_lookup_2 _ 3%nat). reflexivity.
Defined.

(** C8. A failing operation leaves the collection as it was: [todos] with
    a negative limit, and [get_todo], [update_todo] and [delete_todo] with
    an id that no record has, each raise and return the collection
    unchanged; more generally any handler call that raises does. *)
Theorem failing_operations_keep_collection (s : list Todo.t) :
  (∀ k, k < 0 → ∃ e, todos (Some k) s = (s, inl e) ∧ InvalidArgument e) ∧
  (∀ todo_id, todo_id ∉ ids s →
     (∃ e, get_todo todo_id s = (s, inl e) ∧ NotFound e) ∧
     (∀ u, ∃ e, update_todo todo_id u s = (s, inl e) ∧ NotFound e) ∧
     (∃ e, delete_todo todo_id s = (s, inl e) ∧ NotFound e)) ∧
  (∀ first_n s' e, todos first_n s = (s', inl e) → s' = s) ∧
  (∀ todo_id s' e, get_todo todo_id s = (s', inl e) → s' = s) ∧
  (∀ c s' e, create_todo c s = (s', inl e) → s' = s) ∧
  (∀ todo_id u s' e, update_todo todo_id u s = (s', inl e) → s' = s) ∧
  (∀ todo_id s' e, delete_todo todo_id s = (s', inl e) → s' = s).
Proof.
  split_and!.
  - intros k Hk. eexists. by rewrite todos_eq, bool_decide_eq_true_2 by lia.
  - intros todo_id Hout%first_with_id_None. split_and!.
    + eexists. by rewrite get_todo_eq, Hout.
    + intros u. eexists. by rewrite update_todo_eq, Hout.
    + eexists. by rewrite delete_todo_eq, Hout.
  - intros first_n s' e. rewrite todos_eq. by intros [= <- _].
  - intros todo_id s' e. rewrite get_todo_eq. by intros [= <- _].
  - intros c s' e. unfold create_todo, mbind, handler_bind, bind, read, lift; simpl.
    destruct (Todo_new _ _ _ _); simpl; [by intros [= <- _]|done].
  - intros todo_id u s' e. rewrite update_todo_eq.
    destruct (first_with_id todo_id s) as [[i x]|]; [done|]. by intros [= <- _].
  - intros todo_id s' e. rewrite delete_todo_eq.
    destruct (first_with_id todo_id s) as [[i x]|]; [done|]. by intros [= <- _].
Qed.

Lemma failing_operations_keep_collection_witness :
  (∃ e, todos (Some (-1)) sample_todos = (sample_todos, inl e) ∧ InvalidArgument e) ∧
  (∃ e, get_todo 99 sample_todos = (sample_todos, inl e) ∧ NotFound e) ∧
  (∃ e, update_todo 99 raise_priority sample_todos = (sample_todos, inl e) ∧ NotFound e) ∧
  (∃ e, delete_todo 99 sample_todos = (sample_todos, inl e) ∧ NotFound e).
Proof.
  destruct (failing_operations_keep_collection sample_todos) as (Hneg & Habsent & _).
  assert (H99 : 99 ∉ ids sample_todos) by (apply first_with_id_None; reflexivity).
  destruct (Habsent 99 H99) as (Hget & Hupd & Hdel).
  split_and!; [apply Hneg; lia | exact Hget | apply Hupd | exact Hdel].
Defined.

(** ** Sequences of requests *)

Lemma TodoCreate_new_inv (n d : string) (p : option Z) (c : TodoCreate.t) :
  TodoCreate_new n d p = inr c →
  TodoCreate_ok c ∧ TodoCreate.name c = n ∧ TodoCreate.description c = d.
Proof.
  unfold TodoCreate_new, TodoCreate_ok.
  destruct (name_ok n) eqn:Hn; simpl; [|done].
  destruct (description_ok d) eqn:Hd; simpl; [|done].
  destruct (parse_priority (Some LOW) p) as [e|[q|]]; [done| |done].
  by intros [= <-].
Qed.

Lemma TodoUpdate_new_inv (n d : option string) (p : option Z) (u : TodoUpdate.t) :
  TodoUpdate_new n d p = inr u → TodoUpdate_ok u.
Proof.
  unfold TodoUpdate_new, TodoUpdate_ok.
  destruct (opt_ok name_ok n) eqn:Hn; simpl; [|done].
  destruct (opt_ok description_ok d) eqn:Hd; simpl; [|done].
  destruct (parse_priority None p) as [e|q]; [done|].
  by intros [= <-].
Qed.

Ltac run_handler :=
  unfold api, mbind, mret, handler_bind, handler_ret, bind, ret, lift; simpl.

Lemma api_effect (r : Request) (s : list Todo.t) : effect s r (fst (api r s)).
Proof.
  destruct r as [first_n|todo_id|n d p|todo_id n d p|todo_id]; run_handler.
  - rewrite todos_eq. destruct first_n as [k|]; [destruct (bool_decide _)|]; constructor.
  - rewrite get_todo_eq. destruct (first_with_id todo_id s) as [[i x]|]; constructor.
  - destruct (TodoCreate_new n d p) as [e|c] eqn:E; [constructor|].
    apply TodoCreate_new_inv in E as (Hc & _). rewrite create_todo_eq by done. simpl.
    constructor; [done|]. by destruct Hc.
  - destruct (TodoUpdate_new n d p) as [e|u] eqn:E; [constructor|].
    apply TodoUpdate_new_inv in E. rewrite update_todo_eq.
    destruct (first_with_id todo_id s) as [[i x]|] eqn:Hfind; simpl; [|constructor].
    by constructor.
  - rewrite delete_todo_eq.
    destruct (first_with_id todo_id s) as [[i x]|] eqn:Hfind; simpl; [|constructor].
    by econstructor.
Qed.

(** A successful [POST] appends the record it answers with, under the id
    one above the ids present. *)
Lemma api_post_reply (n d : string) (p : option Z) (s s' : list Todo.t) (x : Todo.t) :
  api (POST_todos n d p) s = (s', inr (OneTodo x)) →
  s' = s ++ [x] ∧ Todo.todo_id x = max_default (ids s) (-1) + 1.
Proof.
  run_handler. destruct (TodoCreate_new n d p) as [e|c] eqn:E; [done|].
  apply TodoCreate_new_inv in E as (Hc & _). rewrite create_todo_eq by done. simpl.
  by intros [= <- <-].
Qed.

Lemma Todo_ok_lengths (x : Todo.t) : Todo_ok x ↔ lengths_ok x.
Proof.
  unfold Todo_ok, lengths_ok, name_ok, description_ok, length_between.
  rewrite !andb_true_iff, !bool_decide_eq_true. tauto.
Qed.

Lemma apply_update_ok (u : TodoUpdate.t) (x : Todo.t) :
  TodoUpdate_ok u → Todo_ok x → Todo_ok (apply_update u x).
Proof.
  destruct u as [[n|] [d|] p], x as [i xn xd xp]; unfold TodoUpdate_ok, Todo_ok;
    destruct p; simpl; tauto.
Qed.

Lemma ids_insert_same (s : list Todo.t) (i : nat) (x x' : Todo.t) :
  s !! i = Some x → Todo.todo_id x' = Todo.todo_id x → ids (<[i := x']> s) = ids s.
Proof.
  intros Hi Hid. unfold ids. rewrite list_fmap_insert, Hid.
  apply list_insert_id. by rewrite list_lookup_fmap, Hi.
Qed.

Lemma effect_store_ok (s s' : list Todo.t) (r : Request) :
  effect s r s' → store_ok s → store_ok s'.
Proof.
  intros Heff [Hnd Hok]. destruct Heff as [r|n d p x Hid Hx|todo_id n d p i x u Hfind Hu|todo_id i x Hfind].
  - done.
  - split.
    + unfold unique_ids. rewrite ids_app. simpl. apply NoDup_app. split_and!.
      * done.
      * intros z Hz Hz'. apply list_elem_of_singleton in Hz'. subst z. rewrite Hid in Hz.
        by apply next_id_fresh in Hz.
      * apply NoDup_singleton.
    + apply Forall_app. split; [done|]. by constructor.
  - pose proof Hfind as (Hi & Hx & _)%first_with_id_Some.
    destruct (apply_update_fields u x) as (Hid & _). split.
    + unfold unique_ids. by rewrite (ids_insert_same s i x).
    + apply Forall_insert; [done|]. apply apply_update_ok; [done|].
      rewrite Forall_lookup in Hok. by apply (Hok i).
  - destruct (unique_ids_delete_first s todo_id i x Hnd Hfind) as (Hnd' & _). split.
    + done.
    + by apply Forall_delete.
Qed.

Lemma serve_store_ok (reqs : list Request) (s : list Todo.t) :
  store_ok s → store_ok (serve reqs s).
Proof.
  revert s. induction reqs as [|r reqs IH]; intros s Hs; simpl; [done|].
  apply IH. eapply effect_store_ok; [apply api_effect|done].
Qed.

Lemma all_todos_init_ok (choice : nat → Priority) : store_ok (all_todos_init choice).
Proof.
  split.
  - unfold unique_ids. apply (bool_decide_unpack _). vm_compute. exact I.
  - unfold all_todos_init. apply Forall_fmap, Forall_forall. intros i Hi. simpl.
    apply elem_of_seq in Hi.
    assert (Hcases : i ∈ [0;1;2;3;4;5;6;7;8;9]%nat).
    { do 10 (destruct i as [|i]; [repeat constructor|]). lia. }
    repeat (apply elem_of_cons in Hcases as [->|Hcases]; [by split|]).
    by apply elem_of_nil in Hcases.
Qed.

(** C9. In every state reachable from the initial ten-record state by any
    sequence of list, get, create, update and delete requests, the stored
    ids are pairwise distinct and every stored record has a name of 3 to
    100 characters and a description of 5 to 512 characters. *)
Theorem reachable_invariant (choice : nat → Priority) (reqs : list Request) :
  length (all_todos_init choice) = 10%nat ∧
  NoDup (ids (run choice reqs)) ∧
  Forall (λ x, 3 ≤ str_len (Todo.name x) ≤ 100 ∧
               5 ≤ str_len (Todo.description x) ≤ 512) (run choice reqs).
Proof.
  destruct (serve_store_ok reqs _ (all_todos_init_ok choice)) as [Hnd Hok].
  split_and!; [done|done|].
  eapply Forall_impl; [exact Hok|]. intros x Hx. by apply Todo_ok_lengths in Hx.
Qed.

(** Deleting a stored id and then asking for it, in every state that the
    service reaches. *)
Lemma delete_then_get_reachable (choice : nat → Priority) (reqs : list Request) (X : Z) :
  X ∈ ids (run choice reqs) →
  ∃ i x, delete_todo X (run choice reqs) = (delete i (run choice reqs), inr x) ∧
         (length (delete i (run choice reqs)) + 1 = length (run choice reqs))%nat ∧
         get_todo X (delete i (run choice reqs))
         = (delete i (run choice reqs), inl (HTTPException 404 "Todo not found.")).
Proof.
  unfold run. intros Hin. destruct (first_with_id_present _ _ Hin) as (i & x & Hfind).
  destruct (serve_store_ok reqs _ (all_todos_init_ok choice)) as [Hnd _].
  destruct (unique_ids_delete_first _ X i x Hnd Hfind) as (_ & Hgone & _).
  pose proof Hfind as (Hi%lookup_lt_Some & _)%first_with_id_Some.
  exists i, x. split_and!.
  - by rewrite delete_todo_eq, Hfind.
  - rewrite length_delete by (by apply lookup_lt_is_Some_2). lia.
  - apply first_with_id_None in Hgone. by rewrite get_todo_eq, Hgone.
Qed.

(** ** The history of assigned ids *)

Lemma effect_keeps_id (s s' : list Todo.t) (r : Request) (n : Z) :
  effect s r s' → n ∈ ids s → n ∈ ids s' ∨ r = DELETE_todo n.
Proof.
  intros Heff Hn. destruct Heff as [r|? ? ? x Hid Hx|todo_id ? ? ? i x u Hfind Hu|todo_id i x Hfind].
  - by left.
  - left. rewrite ids_app. apply elem_of_app. by left.
  - left. pose proof Hfind as (Hi & _)%first_with_id_Some.
    destruct (apply_update_fields u x) as (Hid & _).
    by rewrite (ids_insert_same s i x).
  - destruct (decide (n = todo_id)) as [->|Hne]; [by right|left].
    pose proof Hfind as (Hsplit & _)%first_with_id_split.
    pose proof Hfind as (_ & Hx & _)%first_with_id_Some.
    rewrite Hsplit, ids_app in Hn. simpl in Hn.
    rewrite delete_take_drop, ids_app.
    apply elem_of_app in Hn as [Hn|Hn]; [apply elem_of_app; by left|].
    apply elem_of_cons in Hn as [Hn|Hn]; [congruence|].
    apply elem_of_app. by right.
Qed.

Lemma assigned_is_stored (r : Request) (s : list Todo.t) (n : Z) :
  n ∈ assigned r s → n ∈ ids (fst (api r s)).
Proof.
  unfold assigned.
  destruct r as [first_n|todo_id|nm d p|todo_id nm d p|todo_id].
  - destruct (snd (api (GET_todos first_n) s)) as [|[]]; by intros ?%elem_of_nil.
  - destruct (snd (api (GET_todo todo_id) s)) as [|[]]; by intros ?%elem_of_nil.
  - destruct (api (POST_todos nm d p) s) as [s' [e|[x|l]]] eqn:E; simpl;
      try (by intros ?%elem_of_nil).
    apply api_post_reply in E as [-> _]. intros ->%list_elem_of_singleton.
    rewrite ids_app. apply elem_of_app. right. by left.
  - destruct (snd (api (PATCH_todo todo_id nm d p) s)) as [|[]];
      by intros ?%elem_of_nil.
  - destruct (snd (api (DELETE_todo todo_id) s)) as [|[]]; by intros ?%elem_of_nil.
Qed.

(** An id that is stored or gets assigned along the way is still stored at
    the end, unless its deletion was requested. *)
Lemma logged_id_stored_or_deleted (reqs : list Request) (s : list Todo.t) (n : Z) :
  n ∈ ids s ++ assigned_by reqs s →
  n ∈ ids (serve reqs s) ∨ DELETE_todo n ∈ reqs.
Proof.
  revert s. induction reqs as [|r reqs IH]; intros s Hn; simpl in *.
  - rewrite app_nil_r in Hn. by left.
  - assert (Hnext : n ∈ ids (fst (api r s)) ++ assigned_by reqs (fst (api r s))
                    ∨ r = DELETE_todo n).
    { rewrite !elem_of_app in Hn. destruct Hn as [Hn|[Hn|Hn]].
      - destruct (effect_keeps_id _ _ r n (api_effect r s) Hn) as [H|H]; [left|by right].
        apply elem_of_app. by left.
      - left. apply elem_of_app. left. by apply assigned_is_stored.
      - left. apply elem_of_app. by right. }
    destruct Hnext as [Hnext| ->].
    + destruct (IH _ Hnext) as [H|H]; [by left|right]. by right.
    + right. by left.
Qed.

(** C2, as stated, fails: create a record, delete it and create again;
    both creations assign id 10. *)
Lemma id_reassigned_after_delete :
  id_log (λ _, LOW) (create_delete ++ [post_buy_milk])
    = [0; 1; 2; 3; 4; 5; 6; 7; 8; 9; 10; 10] ∧
  ¬ never_reassigned (λ _, LOW) (create_delete ++ [post_buy_milk]).
Proof.
  assert (E : id_log (λ _, LOW) (create_delete ++ [post_buy_milk])
              = [0; 1; 2; 3; 4; 5; 6; 7; 8; 9; 10; 10]) by (vm_compute; reflexivity).
  split; [exact E|]. unfold never_reassigned. rewrite E.
  intros Hnd. apply (bool_decide_pack _) in Hnd. vm_compute in Hnd. exact Hnd.
Qed.

(** C2, amended. In every sequence of requests from the initial state, the
    id given to a newly created record is above every id then stored, so
    it is the id of no live record; and it is an id assigned before only
    if the deletion of that id has been requested since. *)
Theorem new_id_above_live_ids (choice : nat → Priority) (reqs : list Request)
    (n d : string) (p : option Z) (s' : list Todo.t) (x : Todo.t) :
  api (POST_todos n d p) (run choice reqs) = (s', inr (OneTodo x)) →
  Forall (λ y, Todo.todo_id y < Todo.todo_id x) (run choice reqs) ∧
  (Todo.todo_id x ∉ ids (run choice reqs)) ∧
  (Todo.todo_id x ∈ id_log choice reqs → DELETE_todo (Todo.todo_id x) ∈ reqs).
Proof.
  intros [-> Hid]%api_post_reply. rewrite Hid. split_and!.
  - apply next_id_above.
  - apply next_id_fresh.
  - intros Hlog. destruct (logged_id_stored_or_deleted reqs _ _ Hlog) as [H|H]; [|done].
    by apply next_id_fresh in H.
Qed.

Lemma new_id_above_live_ids_witness :
  Forall (λ y, Todo.todo_id y < Todo.todo_id milk_again) (run (λ _, LOW) create_delete) ∧
  (Todo.todo_id milk_again ∉ ids (run (λ _, LOW) create_delete)) ∧
  (Todo.todo_id milk_again ∈ id_log (λ _, LOW) create_delete →
   DELETE_todo (Todo.todo_id milk_again) ∈ create_delete).
Proof.
  apply (new_id_above_live_ids (λ _, LOW) create_delete "Buy milk" "2% milk, 1 gal"
           (Some 2) (run (λ _, LOW) create_delete ++ [milk_again]) milk_again).
  reflexivity.
Defined.

(** * Further properties of the handlers *)

(** ** Helper lemmas *)

Lemma get_todo_inr (todo_id : Z) (s s' : list Todo.t) (x : Todo.t) :
  get_todo todo_id s = (s', inr x) → ∃ i, first_with_id todo_id s = Some (i, x).
Proof.
  rewrite get_todo_eq. destruct (first_with_id todo_id s) as [[i y]|]; [|done].
  intros [= _ ->]. by exists i.
Qed.

(** A record with another id does not matter to the search for an id. *)
Lemma first_with_id_skip (todo_id : Z) (l1 l2 : list Todo.t) (x : Todo.t) :
  Todo.todo_id x ≠ todo_id →
  snd <$> first_with_id todo_id (l1 ++ x :: l2) = snd <$> first_with_id todo_id (l1 ++ l2).
Proof.
  intros Hx. unfold first_with_id. induction l1 as [|y l1 IH]; simpl.
  - case_decide; [done|]. by destruct (list_find _ l2) as [[j z]|].
  - case_decide; [done|].
    destruct (list_find _ (l1 ++ x :: l2)) as [[j z]|],
             (list_find _ (l1 ++ l2)) as [[j' z']|]; simpl in *; congruence.
Qed.

Lemma get_todo_snd (todo_id : Z) (s : list Todo.t) :
  snd (get_todo todo_id s) =
  match snd <$> first_with_id todo_id s with
  | Some todo => inr todo
  | None => inl (HTTPException 404 "Todo not found.")
  end.
Proof. rewrite get_todo_eq. simpl. by destruct (first_with_id todo_id s) as [[i x]|]. Qed.

Lemma insert_at_first (todo_id : Z) (s : list Todo.t) (i : nat) (x x' : Todo.t) :
  first_with_id todo_id s = Some (i, x) →
  <[i := x']> s = take i s ++ x' :: drop (S i) s.
Proof.
  intros (Hi & _)%first_with_id_Some. apply insert_take_drop. by eapply lookup_lt_Some.
Qed.

Lemma first_with_id_insert (todo_id : Z) (s : list Todo.t) (i : nat) (x x' : Todo.t) :
  first_with_id todo_id s = Some (i, x) → Todo.todo_id x' = todo_id →
  first_with_id todo_id (<[i := x']> s) = Some (i, x').
Proof.
  intros Hfind Hid. pose proof Hfind as (Hi & Hx & Hmin)%first_with_id_Some.
  apply first_with_id_Some. split_and!.
  - apply list_lookup_insert_eq. by eapply lookup_lt_Some.
  - done.
  - intros j y Hj Hlt. rewrite list_lookup_insert_ne in Hj by lia. by apply (Hmin j).
Qed.

Lemma apply_update_idem (u : TodoUpdate.t) (x : Todo.t) :
  apply_update u (apply_update u x) = apply_update u x.
Proof. destruct u as [[n|] [d|] [p|]], x as [i xn xd xp]; reflexivity. Qed.

Lemma apply_update_empty (x : Todo.t) : apply_update empty_patch x = x.
Proof. by destruct x. Qed.

(** ** Reading one record *)

(** X1. [get_todo] answers with a record exactly when the id is stored;
    the record is then the first of the collection with that id. *)
Theorem get_todo_finds_first (s : list Todo.t) (todo_id : Z) :
  (todo_id ∈ ids s ↔ ∃ x, get_todo todo_id s = (s, inr x)) ∧
  (∀ s' x, get_todo todo_id s = (s', inr x) →
     ∃ i, s !! i = Some x ∧ Todo.todo_id x = todo_id ∧
          ∀ j y, s !! j = Some y → (j < i)%nat → Todo.todo_id y ≠ todo_id).
Proof.
  split; [split|].
  - intros (i & x & Hfind)%first_with_id_present. exists x. by rewrite get_todo_eq, Hfind.
  - intros [x (i & Hfind)%get_todo_inr].
    destruct (decide (todo_id ∈ ids s)) as [|Hout]; [done|].
    apply first_with_id_None in Hout. congruence.
  - intros s' x (i & Hfind)%get_todo_inr. exists i. by apply first_with_id_Some.
Qed.

Lemma get_todo_finds_first_witness :
  ∃ i, sample_todos !! i = Some (Todo.mk 4 "todo4" "description4" LOW) ∧
       Todo.todo_id (Todo.mk 4 "todo4" "description4" LOW) = 4 ∧
       ∀ j y, sample_todos !! j = Some y → (j < i)%nat → Todo.todo_id y ≠ 4.
Proof.
  destruct (get_todo_finds_first sample_todos 4) as [_ H].
  apply (H sample_todos). reflexivity.
Defined.

(** X2. The three handlers that take an id pick the same record: what
    [get_todo] returns is what [delete_todo] removes and returns, and what
    [update_todo] patches and returns. *)
Theorem handlers_agree_on_record (s : list Todo.t) (todo_id : Z) (x : Todo.t) :
  get_todo todo_id s = (s, inr x) →
  snd (delete_todo todo_id s) = inr x ∧
  ∀ u, snd (update_todo todo_id u s) = inr (apply_update u x).
Proof.
  intros (i & Hfind)%get_todo_inr. split.
  - by rewrite delete_todo_eq, Hfind.
  - intros u. by rewrite update_todo_eq, Hfind.
Qed.

Lemma handlers_agree_on_record_witness :
  snd (delete_todo 4 sample_todos) = inr (Todo.mk 4 "todo4" "description4" LOW) ∧
  ∀ u, snd (update_todo 4 u sample_todos)
       = inr (apply_update u (Todo.mk 4 "todo4" "description4" LOW)).
Proof. apply (handlers_agree_on_record sample_todos 4). reflexivity. Defined.

(** ** Updating *)

(** X3. After a successful [update_todo], [get_todo] on the same id
    returns the updated record. *)
Theorem update_then_get (s : list Todo.t) (todo_id : Z) (u : TodoUpdate.t) :
  todo_id ∈ ids s →
  ∃ s' x', update_todo todo_id u s = (s', inr x') ∧
           get_todo todo_id s' = (s', inr x').
Proof.
  intros (i & x & Hfind)%first_with_id_present.
  exists (<[i := apply_update u x]> s), (apply_update u x). split.
  - by rewrite update_todo_eq, Hfind.
  - rewrite get_todo_eq, (first_with_id_insert todo_id s i x); [done|done|].
    destruct (apply_update_fields u x) as (-> & _).
    by apply first_with_id_Some in Hfind as (_ & ? & _).
Qed.

Lemma update_then_get_witness :
  ∃ s' x', update_todo 5 raise_priority sample_todos = (s', inr x') ∧
           get_todo 5 s' = (s', inr x').
Proof.
  apply (update_then_get sample_todos 5 raise_priority).
  apply (list_elem_of_lookup_2 _ 5%nat). reflexivity.
Defined.

(** X4. A patch that supplies no attribute changes nothing: the collection
    stays as it was, and a stored record is returned as it is. *)
Theorem update_with_empty_patch (s : list Todo.t) (todo_id : Z) :
  fst (update_todo todo_id empty_patch s) = s ∧
  snd (update_todo todo_id empty_patch s) =
  match snd (get_todo todo_id s) with
  | inr x => inr x
  | inl _ => inl (HTTPException 404 "Todo not found")
  end.
Proof.
  rewrite update_todo_eq, get_todo_eq.
  destruct (first_with_id todo_id s) as [[i x]|] eqn:Hfind; simpl; [|done].
  rewrite apply_update_empty. split; [|done].
  apply list_insert_id. by apply first_with_id_Some in Hfind as (? & _).
Qed.

(** X5. Applying the same patch a second time changes nothing more:
    [update_todo] then returns the same answer and leaves the collection
    as the first call left it. *)
Theorem update_todo_idempotent (s : list Todo.t) (todo_id : Z) (u : TodoUpdate.t) :
  update_todo todo_id u (fst (update_todo todo_id u s)) = update_todo todo_id u s.
Proof.
  rewrite (update_todo_eq todo_id u s).
  destruct (first_with_id todo_id s) as [[i x]|] eqn:Hfind; simpl.
  - rewrite update_todo_eq.
    rewrite (first_with_id_insert todo_id s i x (apply_update u x) Hfind).
    + by rewrite apply_update_idem, list_insert_insert_eq.
    + destruct (apply_update_fields u x) as (-> & _).
      by apply first_with_id_Some in Hfind as (_ & ? & _).
  - by rewrite update_todo_eq, Hfind.
Qed.

(** X6. [update_todo] never changes which ids are stored, their order or
    the number of records, whatever the id and the patch. *)
Theorem update_todo_keeps_ids (s : list Todo.t) (todo_id : Z) (u : TodoUpdate.t) :
  ids (fst (update_todo todo_id u s)) = ids s ∧
  length (fst (update_todo todo_id u s)) = length s.
Proof.
  rewrite update_todo_eq.
  destruct (first_with_id todo_id s) as [[i x]|] eqn:Hfind; simpl; [|done].
  apply first_with_id_Some in Hfind as (Hi & _).
  destruct (apply_update_fields u x) as (Hid & _). split.
  - by apply (ids_insert_same s i x).
  - apply length_insert.
Qed.

(** X7. [update_todo] on one id does not change what [get_todo] answers
    for any other id. *)
Theorem update_todo_keeps_other_records (s : list Todo.t) (todo_id other : Z)
    (u : TodoUpdate.t) :
  other ≠ todo_id →
  snd (get_todo other (fst (update_todo todo_id u s))) = snd (get_todo other s).
Proof.
  intros Hne. rewrite update_todo_eq.
  destruct (first_with_id todo_id s) as [[i x]|] eqn:Hfind; simpl; [|done].
  rewrite !get_todo_snd. rewrite (insert_at_first todo_id s i x) by done.
  pose proof Hfind as (Hsplit & _)%first_with_id_split.
  pose proof Hfind as (_ & Hx & _)%first_with_id_Some.
  rewrite Hsplit at 3.
  rewrite !first_with_id_skip; [done|congruence|].
  destruct (apply_update_fields u x) as (-> & _). congruence.
Qed.

Lemma update_todo_keeps_other_records_witness :
  snd (get_todo 6 (fst (update_todo 5 raise_priority sample_todos)))
  = snd (get_todo 6 sample_todos).
Proof. apply (update_todo_keeps_other_records sample_todos 5 6). lia. Defined.

(** ** Deleting *)

(** X8. [delete_todo] on one id does not change what [get_todo] answers
    for any other id. *)
Theorem delete_todo_keeps_other_records (s : list Todo.t) (todo_id other : Z) :
  other ≠ todo_id →
  snd (get_todo other (fst (delete_todo todo_id s))) = snd (get_todo other s).
Proof.
  intros Hne. rewrite delete_todo_eq.
  destruct (first_with_id todo_id s) as [[i x]|] eqn:Hfind; simpl; [|done].
  rewrite !get_todo_snd, delete_take_drop.
  pose proof Hfind as (Hsplit & _)%first_with_id_split.
  pose proof Hfind as (_ & Hx & _)%first_with_id_Some.
  rewrite Hsplit at 3. rewrite first_with_id_skip; [done|congruence].
Qed.

Lemma delete_todo_keeps_other_records_witness :
  snd (get_todo 6 (fst (delete_todo 3 sample_todos))) = snd (get_todo 6 sample_todos).
Proof. apply (delete_todo_keeps_other_records sample_todos 3 6). lia. Defined.

(** ** Creating *)

(** X9. Deleting the record that [create_todo] has just added gives back
    the collection as it was before the creation, and returns that
    record. *)
Theorem create_then_delete (s : list Todo.t) (c : TodoCreate.t) :
  TodoCreate_ok c →
  ∃ s' x, create_todo c s = (s', inr x) ∧
          delete_todo (Todo.todo_id x) s' = (s, inr x).
Proof.
  intros Hc. eexists _, _. split; [by apply create_todo_eq|].
  rewrite delete_todo_eq, first_with_id_app_new by apply next_id_fresh.
  by rewrite delete_middle, app_nil_r.
Qed.

Lemma create_then_delete_witness :
  ∃ s' x, create_todo buy_milk sample_todos = (s', inr x) ∧
          delete_todo (Todo.todo_id x) s' = (sample_todos, inr x).
Proof. apply (create_then_delete sample_todos buy_milk). exact buy_milk_ok. Defined.

(** X10. [create_todo] does not change what [get_todo] answers for an id
    that was stored before. *)
Theorem create_todo_keeps_records (s : list Todo.t) (c : TodoCreate.t) (todo_id : Z) :
  todo_id ∈ ids s →
  get_todo todo_id (fst (create_todo c s))
  = (fst (create_todo c s), snd (get_todo todo_id s)).
Proof.
  intros (i & x & Hfind)%first_with_id_present.
  rewrite !get_todo_eq, Hfind. simpl.
  unfold create_todo, mbind, handler_bind, bind, read, lift; simpl.
  destruct (Todo_new _ _ _ _) as [e|y]; simpl.
  - by rewrite Hfind.
  - unfold first_with_id in *. by rewrite (list_find_app_l _ _ _ _ _ Hfind).
Qed.

Lemma create_todo_keeps_records_witness :
  get_todo 4 (fst (create_todo buy_milk sample_todos))
  = (fst (create_todo buy_milk sample_todos), snd (get_todo 4 sample_todos)).
Proof.
  apply (create_todo_keeps_records sample_todos buy_milk 4).
  apply (list_elem_of_lookup_2 _ 4%nat). reflexivity.
Defined.

(** X11. Two creations in a row receive consecutive ids. *)
Theorem consecutive_creates (s : list Todo.t) (c1 c2 : TodoCreate.t) :
  TodoCreate_ok c1 → TodoCreate_ok c2 →
  ∃ s1 x1 s2 x2,
    create_todo c1 s = (s1, inr x1) ∧ create_todo c2 s1 = (s2, inr x2) ∧
    Todo.todo_id x2 = Todo.todo_id x1 + 1 ∧ s2 = s ++ [x1; x2].
Proof.
  intros H1 H2. eexists _, _, _, _.
  split; [by apply create_todo_eq|]. split; [by apply create_todo_eq|]. simpl.
  split; [|by rewrite <- app_assoc].
  f_equal. rewrite ids_app. simpl.
  set (m := max_default (ids s) (-1) + 1).
  assert (Hm : is_max m (ids s ++ [m])).
  { split; [apply elem_of_app; right; by left|].
    apply Forall_app. split; [|by constructor].
    pose proof (max_default_bound (ids s) (-1)) as Hb.
    eapply Forall_impl; [exact Hb|]. intros z Hz. simpl in Hz. unfold m. lia. }
  eapply is_max_unique; [|exact Hm].
  apply max_default_is_max. by destruct (ids s).
Qed.

Lemma walk_dog_ok : TodoCreate_ok walk_dog.
Proof. split; reflexivity. Defined.

Lemma consecutive_creates_witness :
  ∃ s1 x1 s2 x2,
    create_todo buy_milk sample_todos = (s1, inr x1) ∧
    create_todo walk_dog s1 = (s2, inr x2) ∧
    Todo.todo_id x2 = Todo.todo_id x1 + 1 ∧ s2 = sample_todos ++ [x1; x2].
Proof.
  apply (consecutive_creates sample_todos buy_milk walk_dog).
  - exact buy_milk_ok.
  - exact walk_dog_ok.
Defined.

(** X12. [create_todo] refuses an input whose name or description is out of
    bounds: building the [Todo] raises [ValidationError] and nothing is
    appended; otherwise it appends exactly one record. *)
Theorem create_todo_validates (s : list Todo.t) (c : TodoCreate.t) :
  (TodoCreate_ok c → length (fst (create_todo c s)) = S (length s)) ∧
  (¬ TodoCreate_ok c → create_todo c s = (s, inl ValidationError)).
Proof.
  split.
  - intros Hc. rewrite create_todo_eq by done. simpl. rewrite length_app. simpl. lia.
  - intros Hc. unfold create_todo, mbind, handler_bind, bind, read, lift, Todo_new; simpl.
    unfold TodoCreate_ok in Hc.
    destruct (name_ok (TodoCreate.name c)); simpl; [|done].
    destruct (description_ok (TodoCreate.description c)); simpl; [|done].
    by destruct Hc.
Qed.

Lemma create_todo_validates_witness :
  length (fst (create_todo buy_milk sample_todos)) = S (length sample_todos) ∧
  create_todo (TodoCreate.mk "ab" "2% milk, 1 gal" LOW) sample_todos
  = (sample_todos, inl ValidationError).
Proof.
  destruct (create_todo_validates sample_todos buy_milk) as [Hok _].
  destruct (create_todo_validates sample_todos (TodoCreate.mk "ab" "2% milk, 1 gal" LOW))
    as [_ Hbad].
  split; [apply Hok; exact buy_milk_ok|].
  apply Hbad. intros [Hn _]. discriminate Hn.
Defined.

(** ** Listing *)

(** X13. The limit 0 is accepted and gives the empty list; a limit of at
    least the size of the collection gives the whole collection, as no
    limit does. *)
Theorem todos_limit_edges (s : list Todo.t) :
  todos (Some 0) s = (s, inr []) ∧
  (∀ k, Z.of_nat (length s) ≤ k → todos (Some k) s = todos None s).
Proof.
  split.
  - by rewrite todos_eq.
  - intros k Hk. rewrite !todos_eq, bool_decide_eq_false_2 by lia.
    unfold slice_to. rewrite bool_decide_eq_false_2 by lia.
    rewrite take_ge by lia. done.
Qed.

Lemma todos_limit_edges_witness :
  todos (Some 0) sample_todos = (sample_todos, inr []) ∧
  todos (Some 25) sample_todos = todos None sample_todos.
Proof.
  destruct (todos_limit_edges sample_todos) as [H0 Hall].
  split; [exact H0|]. apply Hall. simpl. lia.
Defined.

(** X14. A shorter listing is a prefix of a longer one: for limits
    [0 <= j <= k] the answer for [j] is the first [j] records of the
    answer for [k]. *)
Theorem todos_prefix (s : list Todo.t) (j k : Z) :
  0 ≤ j → j ≤ k →
  ∃ lj lk, todos (Some j) s = (s, inr lj) ∧ todos (Some k) s = (s, inr lk) ∧
           lj = take (Z.to_nat j) lk.
Proof.
  intros Hj Hjk. eexists _, _.
  rewrite !todos_eq, !bool_decide_eq_false_2 by lia. split_and!; try done.
  unfold slice_to. rewrite !bool_decide_eq_false_2 by lia.
  rewrite take_take. f_equal. lia.
Qed.

Lemma todos_prefix_witness :
  ∃ lj lk, todos (Some 2) sample_todos = (sample_todos, inr lj) ∧
           todos (Some 7) sample_todos = (sample_todos, inr lk) ∧
           lj = take (Z.to_nat 2) lk.
Proof. apply (todos_prefix sample_todos 2 7); lia. Defined.

(** ** The models and their validation *)

Lemma Priority_of_value_value (p : Priority) : Priority_of_value (Priority_value p) = Some p.
Proof. by destruct p. Qed.

Lemma Priority_of_value_Some (v : Z) (p : Priority) :
  Priority_of_value v = Some p → Priority_value p = v.
Proof.
  unfold Priority_of_value. repeat case_bool_decide; intros [= <-]; by subst.
Qed.

(** X15. [Priority(v)] and the value of a member are inverse to each other;
    exactly the integers 1, 2 and 3 are values, and the values order the
    members as LOW, MEDIUM, HIGH. *)
Theorem Priority_round_trip :
  (∀ p, Priority_of_value (Priority_value p) = Some p) ∧
  (∀ v p, Priority_of_value v = Some p → Priority_value p = v) ∧
  (∀ v, Priority_of_value v = None ↔ v < 1 ∨ 3 < v) ∧
  Priority_value LOW < Priority_value MEDIUM < Priority_value HIGH.
Proof.
  split_and!.
  - by intros [].
  - intros v p. unfold Priority_of_value.
    repeat case_bool_decide; intros [= <-]; by subst.
  - intros v. unfold Priority_of_value. repeat case_bool_decide; split; try done; lia.
  - done.
  - done.
Qed.

Lemma Priority_round_trip_witness : Priority_value MEDIUM = 2.
Proof.
  destruct Priority_round_trip as (_ & H & _). apply (H 2 MEDIUM). reflexivity.
Defined.

Lemma length_between_spec (lo hi : Z) (s : string) :
  length_between lo hi s = true ↔ lo ≤ str_len s ≤ hi.
Proof.
  unfold length_between. rewrite andb_true_iff, !bool_decide_eq_true. tauto.
Qed.

Lemma parse_priority_inr (default : option Priority) (raw : option Z)
    (q : option Priority) :
  parse_priority default raw = inr q ↔
  match raw with
  | None => q = default
  | Some v => ∃ p, q = Some p ∧ Priority_value p = v
  end.
Proof.
  unfold parse_priority. destruct raw as [v|].
  - destruct (Priority_of_value v) as [p|] eqn:E.
    + split.
      * intros [= <-]. exists p. split; [done|]. by apply Priority_of_value_Some.
      * intros (p' & -> & <-). rewrite Priority_of_value_value in E. congruence.
    + split; [done|]. intros (p' & -> & <-). rewrite Priority_of_value_value in E.
      congruence.
  - split; [by intros [= <-]|by intros ->].
Qed.

Lemma TodoCreate_new_inl (n d : string) (p : option Z) (e : exn) :
  TodoCreate_new n d p = inl e → e = ValidationError.
Proof.
  unfold TodoCreate_new.
  destruct (name_ok n); simpl; [|by intros [= <-]].
  destruct (description_ok d); simpl; [|by intros [= <-]].
  unfold parse_priority. destruct p as [v|]; [|done].
  destruct (Priority_of_value v); [done|by intros [= <-]].
Qed.

Lemma TodoUpdate_new_inl (n d : option string) (p : option Z) (e : exn) :
  TodoUpdate_new n d p = inl e → e = ValidationError.
Proof.
  unfold TodoUpdate_new.
  destruct (opt_ok name_ok n); simpl; [|by intros [= <-]].
  destruct (opt_ok description_ok d); simpl; [|by intros [= <-]].
  unfold parse_priority. destruct p as [v|]; [|done].
  destruct (Priority_of_value v); [done|by intros [= <-]].
Qed.

(** X16. A create body is accepted exactly when the name has 3 to 100
    characters, the description 5 to 512, and the priority is absent or
    one of 1, 2, 3; the model then carries the given texts, and the
    priority given or LOW.  Any other body raises [ValidationError]. *)
Theorem TodoCreate_new_accepts (n d : string) (p : option Z) :
  (∀ c, TodoCreate_new n d p = inr c ↔
        3 ≤ str_len n ≤ 100 ∧ 5 ≤ str_len d ≤ 512 ∧
        TodoCreate.name c = n ∧ TodoCreate.description c = d ∧
        match p with
        | None => TodoCreate.priority c = LOW
        | Some v => Priority_value (TodoCreate.priority c) = v
        end) ∧
  (∀ e, TodoCreate_new n d p = inl e → e = ValidationError).
Proof.
  unfold TodoCreate_new, name_ok, description_ok. split.
  - intros [cn cd cp]. simpl.
    rewrite <- (length_between_spec 3 100 n), <- (length_between_spec 5 512 d).
    destruct (length_between 3 100 n); simpl; [|by split; [|intros (? & _)]].
    destruct (length_between 5 512 d); simpl; [|by split; [|intros (_ & ? & _)]].
    destruct (parse_priority (Some LOW) p) as [e|[q|]] eqn:E.
    + split; [done|]. intros (_ & _ & _ & _ & Hp).
      assert (parse_priority (Some LOW) p = inr (Some cp)) as E'; [|congruence].
      apply parse_priority_inr. destruct p as [v|]; [by exists cp|by rewrite Hp].
    + apply parse_priority_inr in E. split.
      * intros [= <- <- <-]. split_and!; try done.
        destruct p as [v|]; [by destruct E as (p' & [= ->] & ?)|congruence].
      * intros (_ & _ & -> & -> & Hp). do 2 f_equal.
        destruct p as [v|].
        -- destruct E as (p' & [= ->] & Hv). rewrite <- Hp in Hv.
           by destruct p', cp.
        -- congruence.
    + apply parse_priority_inr in E. destruct p as [v|]; [|done].
      by destruct E as (p' & ? & _).
  - intros e.
    destruct (length_between 3 100 n); simpl; [|by intros [= <-]].
    destruct (length_between 5 512 d); simpl; [|by intros [= <-]].
    unfold parse_priority. destruct p as [v|]; [|done].
    destruct (Priority_of_value v); [done|by intros [= <-]].
Qed.

Lemma TodoCreate_new_accepts_witness :
  TodoCreate_new "Buy milk" "2% milk, 1 gal" None
  = inr (TodoCreate.mk "Buy milk" "2% milk, 1 gal" LOW) ∧
  3 ≤ str_len "Buy milk" ≤ 100.
Proof.
  destruct (TodoCreate_new_accepts "Buy milk" "2% milk, 1 gal" None) as [H _].
  split.
  - apply H. simpl. split_and!; try reflexivity; vm_compute; by intros [=].
  - apply (H (TodoCreate.mk "Buy milk" "2% milk, 1 gal" LOW)). reflexivity.
Defined.

(** X17. A patch body is accepted exactly when each text it supplies is
    within the bounds of its field and a supplied priority is one of 1, 2,
    3; what is not supplied stays absent in the model.  Any other body
    raises [ValidationError]. *)
Theorem TodoUpdate_new_accepts (n d : option string) (p : option Z) :
  (∀ u, TodoUpdate_new n d p = inr u ↔
        (∀ v, n = Some v → 3 ≤ str_len v ≤ 100) ∧
        (∀ v, d = Some v → 5 ≤ str_len v ≤ 512) ∧
        TodoUpdate.name u = n ∧ TodoUpdate.description u = d ∧
        match p with
        | None => TodoUpdate.priority u = None
        | Some v => ∃ q, TodoUpdate.priority u = Some q ∧ Priority_value q = v
        end) ∧
  (∀ e, TodoUpdate_new n d p = inl e → e = ValidationError).
Proof.
  assert (Hopt : ∀ lo hi (o : option string),
             opt_ok (length_between lo hi) o = true ↔
             ∀ v, o = Some v → lo ≤ str_len v ≤ hi).
  { intros lo hi [v|]; simpl.
    - rewrite length_between_spec. split; [by intros ? ? [= <-]|auto].
    - split; [done|auto]. }
  unfold TodoUpdate_new, name_ok, description_ok. split.
  - intros [un ud up]. simpl. rewrite <- (Hopt 3 100 n), <- (Hopt 5 512 d).
    destruct (opt_ok (length_between 3 100) n); simpl; [|by split; [|intros (? & _)]].
    destruct (opt_ok (length_between 5 512) d); simpl; [|by split; [|intros (_ & ? & _)]].
    destruct (parse_priority None p) as [e|q] eqn:E.
    + split; [done|]. intros (_ & _ & _ & _ & Hp).
      assert (parse_priority None p = inr up) as E'; [|congruence].
      apply parse_priority_inr. by destruct p.
    + apply parse_priority_inr in E. split.
      * intros [= <- <- <-]. split_and!; try done; by destruct p.
      * intros (_ & _ & -> & -> & Hp). do 2 f_equal. destruct p as [v|]; [|congruence].
        destruct E as (p1 & -> & H1), Hp as (p2 & -> & H2). f_equal.
        rewrite <- H2 in H1. by destruct p1, p2.
  - intros e.
    destruct (opt_ok (length_between 3 100) n); simpl; [|by intros [= <-]].
    destruct (opt_ok (length_between 5 512) d); simpl; [|by intros [= <-]].
    unfold parse_priority. destruct p as [v|]; [|done].
    destruct (Priority_of_value v); [done|by intros [= <-]].
Qed.

Lemma TodoUpdate_new_accepts_witness :
  TodoUpdate_new None None (Some 3) = inr raise_priority ∧
  ∀ e, TodoUpdate_new (Some "ab") None None = inl e → e = ValidationError.
Proof.
  destruct (TodoUpdate_new_accepts None None (Some 3)) as [H _].
  destruct (TodoUpdate_new_accepts (Some "ab") None None) as [_ H'].
  split; [|exact H'].
  apply H. simpl. split_and!; try done. by exists HIGH.
Defined.

(** X18. At start-up none of the ten constructor calls raises: for every
    outcome of the random choices the list holds ten valid records with
    the ids 0 to 9 in this order, named [todo<i>] and described
    [description<i>]. *)
Theorem all_todos_init_built (choice : nat → Priority) :
  ids (all_todos_init choice) = [0; 1; 2; 3; 4; 5; 6; 7; 8; 9] ∧
  ∀ i, (i < 10)%nat →
    ∃ x, Todo_new (Z.of_nat i) ("todo" ++ str i)%string ("description" ++ str i)%string
           (choice i) = inr x ∧
         all_todos_init choice !! i = Some x.
Proof.
  split; [reflexivity|]. intros i Hi.
  do 10 (destruct i as [|i]; [eexists; split; reflexivity|]). lia.
Qed.

Lemma all_todos_init_built_witness :
  ∃ x, Todo_new 7 "todo7" "description7" HIGH = inr x ∧
       all_todos_init (λ _, HIGH) !! 7%nat = Some x.
Proof.
  destruct (all_todos_init_built (λ _, HIGH)) as [_ H]. apply (H 7%nat). lia.
Defined.

(** ** Whole requests *)

(** X19. A request that is answered with an error leaves the collection as
    it was, and the error is one of three: 400 for a negative limit on the
    listing, 404 for an id that is not stored (get, patch, delete), or a
    validation error of the body (post, patch).  In particular
    [all_todos.pop] never raises [IndexError]. *)
Theorem api_errors (r : Request) (s s' : list Todo.t) (e : exn) :
  api r s = (s', inl e) →
  s' = s ∧
  ((status_of e = 400 ∧ ∃ k, r = GET_todos (Some k) ∧ k < 0) ∨
   (status_of e = 404 ∧ ∃ todo_id, (todo_id ∉ ids s) ∧
      (r = GET_todo todo_id ∨ r = DELETE_todo todo_id ∨
       ∃ n d p, r = PATCH_todo todo_id n d p)) ∨
   (e = ValidationError ∧
      ((∃ n d p, r = POST_todos n d p) ∨ ∃ todo_id n d p, r = PATCH_todo todo_id n d p))).
Proof.
  destruct r as [first_n|todo_id|n d p|todo_id n d p|todo_id]; run_handler.
  - rewrite todos_eq. destruct first_n as [k|]; [|done].
    case_bool_decide; [|done]. intros [= <- <-]. split; [done|]. left. eauto.
  - rewrite get_todo_eq. destruct (first_with_id todo_id s) as [[i x]|] eqn:E; [done|].
    intros [= <- <-]. apply first_with_id_None in E. split; [done|].
    right; left. split; [done|]. eauto.
  - destruct (TodoCreate_new n d p) as [e'|c] eqn:E.
    + intros [= <- <-]. split; [done|]. do 2 right. split; [|eauto].
      by apply TodoCreate_new_inl in E.
    + apply TodoCreate_new_inv in E as (Hc & _). by rewrite create_todo_eq.
  - destruct (TodoUpdate_new n d p) as [e'|u] eqn:E.
    + intros [= <- <-]. split; [done|]. do 2 right. split; [|eauto 6].
      by apply TodoUpdate_new_inl in E.
    + rewrite update_todo_eq.
      destruct (first_with_id todo_id s) as [[i x]|] eqn:Hfind; [done|].
      intros [= <- <-]. apply first_with_id_None in Hfind. split; [done|].
      right; left. split; [done|]. eauto 8.
  - rewrite delete_todo_eq.
    destruct (first_with_id todo_id s) as [[i x]|] eqn:Hfind; [done|].
    intros [= <- <-]. apply first_with_id_None in Hfind. split; [done|].
    right; left. split; [done|]. eauto.
Qed.

Lemma api_errors_witness :
  sample_todos = sample_todos ∧
  ((status_of (HTTPException 404 "Todo not found") = 400 ∧
    ∃ k, PATCH_todo 99 None None (Some 3) = GET_todos (Some k) ∧ k < 0) ∨
   (status_of (HTTPException 404 "Todo not found") = 404 ∧
    ∃ todo_id, (todo_id ∉ ids sample_todos) ∧
      (PATCH_todo 99 None None (Some 3) = GET_todo todo_id ∨
       PATCH_todo 99 None None (Some 3) = DELETE_todo todo_id ∨
       ∃ n d p, PATCH_todo 99 None None (Some 3) = PATCH_todo todo_id n d p)) ∨
   (HTTPException 404 "Todo not found" = ValidationError ∧
      ((∃ n d p, PATCH_todo 99 None None (Some 3) = POST_todos n d p) ∨
       ∃ todo_id n d p, PATCH_todo 99 None None (Some 3) = PATCH_todo todo_id n d p))).
Proof.
  apply (api_errors (PATCH_todo 99 None None (Some 3)) sample_todos sample_todos
           (HTTPException 404 "Todo not found")).
  reflexivity.
Defined.

(** X20. Only a successful post and a successful delete change the number
    of records, by one more and one less; every other request, and every
    request answered with an error, leaves the number as it is. *)
Theorem api_length (r : Request) (s : list Todo.t) :
  match r, snd (api r s) with
  | POST_todos _ _ _, inr _ => length (fst (api r s)) = S (length s)
  | DELETE_todo _, inr _ => S (length (fst (api r s))) = length s
  | _, _ => length (fst (api r s)) = length s
  end.
Proof.
  destruct r as [first_n|todo_id|n d p|todo_id n d p|todo_id]; run_handler.
  - rewrite todos_eq. by destruct first_n as [k|]; [case_bool_decide|].
  - rewrite get_todo_eq. by destruct (first_with_id todo_id s) as [[i x]|].
  - destruct (TodoCreate_new n d p) as [e'|c] eqn:E; [done|].
    apply TodoCreate_new_inv in E as (Hc & _). rewrite create_todo_eq by done. simpl.
    rewrite length_app. simpl. lia.
  - destruct (TodoUpdate_new n d p) as [e'|u] eqn:E; [done|].
    rewrite update_todo_eq.
    destruct (first_with_id todo_id s) as [[i x]|]; simpl; [|done].
    by rewrite length_insert.
  - rewrite delete_todo_eq.
    destruct (first_with_id todo_id s) as [[i x]|] eqn:Hfind; simpl; [|done].
    apply first_with_id_Some in Hfind as (Hi%lookup_lt_Some & _).
    rewrite length_delete by (by apply lookup_lt_is_Some_2). lia.
Qed.

(** ** Order of the collection *)

Lemma effect_sorted (s s' : list Todo.t) (r : Request) :
  effect s r s' →
  StronglySorted Z.lt (ids s) ∧ Forall (λ z, 0 ≤ z) (ids s) →
  StronglySorted Z.lt (ids s') ∧ Forall (λ z, 0 ≤ z) (ids s').
Proof.
  intros Heff [Hs Hpos].
  destruct Heff as [r|n d p x Hid Hx|todo_id n d p i x u Hfind Hu|todo_id i x Hfind].
  - done.
  - rewrite ids_app. simpl. split.
    + apply StronglySorted_app. split_and!; [|done|repeat constructor].
      intros z1 z2 Hz1 ->%list_elem_of_singleton. rewrite Hid.
      pose proof (max_default_bound (ids s) (-1)) as Hb.
      rewrite Forall_forall in Hb. specialize (Hb z1 Hz1). simpl in *. lia.
    + apply Forall_app. split; [done|]. constructor; [|done]. rewrite Hid.
      destruct (ids s) as [|z zs] eqn:E; [done|].
      destruct (max_default_is_max (z :: zs) (-1)) as [Hin _]; [done|].
      rewrite Forall_forall in Hpos. specialize (Hpos _ Hin). cbv beta in Hpos. lia.
  - apply first_with_id_Some in Hfind as (Hi & _).
    destruct (apply_update_fields u x) as (Hid & _).
    by rewrite (ids_insert_same s i x).
  - pose proof Hfind as (Hsplit & _)%first_with_id_split.
    rewrite Hsplit, ids_app in Hs, Hpos. simpl in Hs, Hpos.
    rewrite delete_take_drop, ids_app.
    apply StronglySorted_app in Hs as (Hlt & Hs1 & (_ & Hs2)%StronglySorted_cons).
    apply Forall_app in Hpos as (Hp1 & (_ & Hp2)%Forall_cons). split.
    + apply StronglySorted_app. split_and!; [|done|done].
      intros z1 z2 Hz1 Hz2. apply Hlt; [done|]. by right.
    + apply Forall_app. by split.
Qed.

Lemma all_todos_init_sorted (choice : nat → Priority) :
  StronglySorted Z.lt (ids (all_todos_init choice)) ∧
  Forall (λ z, 0 ≤ z) (ids (all_todos_init choice)).
Proof.
  split.
  - apply (bool_decide_unpack _). vm_compute. exact I.
  - apply (bool_decide_unpack _). vm_compute. exact I.
Qed.

Lemma serve_sorted (reqs : list Request) (s : list Todo.t) :
  StronglySorted Z.lt (ids s) ∧ Forall (λ z, 0 ≤ z) (ids s) →
  StronglySorted Z.lt (ids (serve reqs s)) ∧ Forall (λ z, 0 ≤ z) (ids (serve reqs s)).
Proof.
  revert s. induction reqs as [|r reqs IH]; intros s Hs; simpl; [done|].
  apply IH. eapply effect_sorted; [apply api_effect|done].
Qed.

(** X21. Whatever requests have been served since start-up, the collection
    is in strictly increasing order of id, and no id is negative: the
    order of the list is the order of creation and of the ids. *)
Theorem reachable_sorted (choice : nat → Priority) (reqs : list Request) :
  StronglySorted Z.lt (ids (run choice reqs)) ∧
  Forall (λ z, 0 ≤ z) (ids (run choice reqs)).
Proof. apply serve_sorted, all_todos_init_sorted. Qed.

(** X22. Whatever requests have been served since start-up, a creation
    receives the id of the last record of the collection plus one. *)
Theorem reachable_next_id (choice : nat → Priority) (reqs : list Request)
    (c : TodoCreate.t) (y : Todo.t) :
  TodoCreate_ok c → last (run choice reqs) = Some y →
  ∃ x, snd (create_todo c (run choice reqs)) = inr x ∧
       Todo.todo_id x = Todo.todo_id y + 1.
Proof.
  intros Hc Hlast. rewrite create_todo_eq by done. simpl. eexists. split; [done|]. simpl.
  f_equal. destruct (serve_sorted reqs _ (all_todos_init_sorted choice)) as [Hs _].
  fold (run choice reqs) in Hs.
  apply last_Some in Hlast as [s0 Hs0]. rewrite Hs0 in *. rewrite ids_app in *.
  simpl in *. apply StronglySorted_app in Hs as (Hlt & _ & _).
  eapply is_max_unique; [apply max_default_is_max; by destruct (ids s0)|].
  split; [apply elem_of_app; right; by left|].
  apply Forall_app. split; [|by constructor].
  apply Forall_forall. intros z Hz. apply Z.lt_le_incl, Hlt; [done|by left].
Qed.

Lemma reachable_next_id_witness :
  ∃ x, snd (create_todo buy_milk (run (λ _, LOW) create_delete)) = inr x ∧
       Todo.todo_id x = Todo.todo_id (Todo.mk 9 "todo9" "description9" LOW) + 1.
Proof.
  apply (reachable_next_id (λ _, LOW) create_delete buy_milk).
  - exact buy_milk_ok.
  - reflexivity.
Defined.
